(** * skygear-server: request dispatch, file asset store, logger registry

    A shallow embedding of
    - [router]: [commonRouter.ServeHTTP], [HandlePayload], [callHandler],
      [writeEntity], [getTimeoutChan];
    - [asset/fs]: [AssetStore.GetRangedFileReader], [PutFileReader],
      [SignedURL], [ParseSignature], [IsSignatureRequired];
    - [logging]: [Logger], [SetConfigureLoggerHandler], [Loggers],
      [LoggerEntry], [LoggerEntryWithTag], [CreateLogger];
    and the properties of these functions. *)

From Stdlib Require Import ZArith QArith Lia.
From stdpp Require Import base option list strings pretty gmap.

Local Open Scope string_scope.
Local Open Scope list_scope.
Local Open Scope Z_scope.

(** Go values shared by the three packages. An [error] value is identified
    with the text of its [Error()] method; a recovered panic payload
    ([interface{}]) with its printed form. *)
Definition GoError : Type := string.
Definition PanicValue : Type := string.

(** The result of calling a Go function that may panic. *)
Inductive Outcome (A : Type) : Type :=
| Returns (a : A)
| Panics (v : PanicValue).
Arguments Returns {A} a.
Arguments Panics {A} v.

(* ===================================================================== *)
(** ** skyerr *)
Module skyerr.

(** Modelled from the spec: package [skyerr] is not part of the router
    package. An error is a (code, message) pair. The codes are those the
    router names ([RequestJSONInvalid], [UndefinedOperation],
    [ResponseTimeout]), the code of the error built from a recovered panic
    ([InternalFault]), and every other code of the application
    ([OtherCode]). *)
Inductive ErrorCode : Type :=
| RequestJSONInvalid
| UndefinedOperation
| ResponseTimeout
| InternalFault
| OtherCode (n : Z).

Record Error : Type := NewError { Code : ErrorCode; Message : string }.

End skyerr.

(* ===================================================================== *)
Module Router.

Abbreviation Error := skyerr.Error.

(** ** net/http *)

Definition StatusOK : Z := 200.
Definition StatusNotFound : Z := 404.

Section Dispatch.

(** [Data] is the decoded body of a request, [Body] the value a handler
    stores in [Response.Result], [Request] the raw [*http.Request]. *)
Context {Request Data Body : Type}.

(** [skyerr] helpers and [skyversion.Version] live outside the router
    package; the router only calls them. *)
Variable defaultStatusCode : Error -> Z.
Variable panicMessage : PanicValue -> string.
Variable jsonInvalidMessage : GoError -> string.
Variable Version : string.

(** Modelled from the spec: [errorFromRecoveringPanic] is not in the
    router source; a recovered fault is converted to a generic
    [InternalFault] error carrying a description derived from the fault
    payload. *)
Definition errorFromRecoveringPanic (r : PanicValue) : Error :=
  skyerr.NewError skyerr.InternalFault (panicMessage r).

(** Modelled from the spec: [skyerr.NewRequestJSONInvalidErr] is not in
    the router source; a decode failure yields the request-malformed
    error. *)
Definition NewRequestJSONInvalidErr (err : GoError) : Error :=
  skyerr.NewError skyerr.RequestJSONInvalid (jsonInvalidMessage err).

(** The [context.Context] values the router and the logger share, and the
    [Payload] that carries them ([Payload.Context], [Payload.SetContext]). *)
Record Context : Type := mkContext {
  RequestTag : option string;
  RequestID : option string
}.

Record Payload : Type := mkPayload {
  Ctx : Context;
  PayloadData : Data
}.

Definition SetContext (p : Payload) (c : Context) : Payload :=
  {| Ctx := c; PayloadData := PayloadData p |}.

Definition WithRequestTag (c : Context) (tag : string) : Context :=
  {| RequestTag := Some tag; RequestID := RequestID c |}.

(** What goes over the wire: every [WriteHeader] call, with the header map
    as it stands at the call, and every entity the JSON encoder wrote. *)
Record Entity : Type := mkEntity {
  entErr : option Error;
  entResult : option Body
}.

Inductive WireEvent : Type :=
| WroteHeader (h : gmap string string) (status : Z)
| WroteBody (e : Entity).

(** The [http.ResponseWriter] of the request. *)
Record ResponseWriter : Type := mkWriter {
  Header : gmap string string;
  sent : list WireEvent
}.

(** [Response.writer] is nil or points to the request's writer. *)
Inductive WriterPtr : Type := ToConn.

Record Response : Type := mkResponse {
  writer : option WriterPtr;
  Err : option Error;
  Result : option Body
}.

(** Modelled from the spec: [Response.Writer] is declared outside the
    router source; it gives the write target of the Response, nil once the
    response has been written by other means. *)
Definition Writer (resp : Response) : option WriterPtr := writer resp.

Definition setErr (resp : Response) (e : option Error) : Response :=
  {| writer := writer resp; Err := e; Result := Result resp |}.

Definition entityOf (resp : Response) : Entity :=
  {| entErr := Err resp; entResult := Result resp |}.

(** [json.NewEncoder(w).Encode(i)] fails on some entities or some
    connections; [encodeError] tells when, and with which error. *)
Variable encodeError : Entity -> option GoError.

(** A processor or a handler receives [*Response] and mutates it in place;
    it returns the Response as it left it, also when it panics. *)
Record Processor : Type := mkProcessor {
  Preprocess : Payload -> Response -> Response * Outcome Z
}.

Record Handler : Type := mkHandler {
  Handle : Payload -> Response -> Response * Outcome unit
}.

Record routeConfig : Type := mkRouteConfig {
  Tag : string;
  Preprocessors : list Processor;
  rcHandler : Handler
}.

Record commonRouter : Type := mkRouter {
  payloadFunc : Request -> Payload + GoError;
  matchHandlerFunc : Payload -> Outcome (routeConfig + GoError);
  ResponseTimeout : Z
}.

(** The calls the chain makes, in order: [CallPreprocess i] is the call of
    the processor at index [i] of [Preprocessors]. *)
Inductive Call : Type :=
| CallPreprocess (i : nat)
| CallHandle.

(** ** callHandler *)

(** How [for _, p := range pp] is left. *)
Inductive LoopExit : Type :=
| LoopReturn (httpStatus : Z) (resp : Response)
| LoopEnd (httpStatus : Z) (resp : Response)
| LoopPanic (v : PanicValue) (resp : Response).

(** The loop of [callHandler], entered at index [i] with the current
    [httpStatus]. *)
Fixpoint preprocessLoop (pp : list Processor) (i : nat) (payload : Payload)
    (httpStatus : Z) (resp : Response) (calls : list Call)
    : LoopExit * list Call :=
  match pp with
  | [] => (LoopEnd httpStatus resp, calls)
  | p :: rest =>
      let calls := calls ++ [CallPreprocess i] in
      match Preprocess p payload resp with
      | (resp, Panics v) => (LoopPanic v resp, calls)
      | (resp, Returns httpStatus) =>
          match Err resp with
          | Some e =>
              if decide (httpStatus = StatusOK)
              then (LoopReturn (defaultStatusCode e) resp, calls)
              else (LoopReturn httpStatus resp, calls)
          | None => preprocessLoop rest (S i) payload httpStatus resp calls
          end
      end
  end.

(** The body of [callHandler] from the loop on, before the deferred
    function runs. *)
Definition callHandlerBody (handler : Handler) (pp : list Processor)
    (i : nat) (payload : Payload) (httpStatus : Z) (resp : Response)
    (calls : list Call) : Outcome Z * Response * list Call :=
  match preprocessLoop pp i payload httpStatus resp calls with
  | (LoopReturn httpStatus resp, calls) => (Returns httpStatus, resp, calls)
  | (LoopPanic v resp, calls) => (Panics v, resp, calls)
  | (LoopEnd httpStatus resp, calls) =>
      let calls := calls ++ [CallHandle] in
      match Handle handler payload resp with
      | (resp, Returns _) => (Returns httpStatus, resp, calls)
      | (resp, Panics v) => (Panics v, resp, calls)
      end
  end.

(** The deferred function of [callHandler]: [recover()], and on a panic
    the named result [httpStatus] and [resp.Err] are overwritten. *)
Definition callHandlerRecover (body : Outcome Z * Response * list Call)
    : Z * Response * list Call :=
  match body with
  | (Returns httpStatus, resp, calls) => (httpStatus, resp, calls)
  | (Panics r, resp, calls) =>
      let e := errorFromRecoveringPanic r in
      (defaultStatusCode e, setErr resp (Some e), calls)
  end.

(** [callHandler] resumed at processor [i]: the goroutine of
    [HandlePayload] is observed between two calls. *)
Definition callHandlerFrom (handler : Handler) (pp : list Processor)
    (i : nat) (payload : Payload) (httpStatus : Z) (resp : Response)
    (calls : list Call) : Z * Response * list Call :=
  callHandlerRecover (callHandlerBody handler pp i payload httpStatus resp calls).

Definition callHandler (handler : Handler) (pp : list Processor)
    (payload : Payload) (resp : Response) : Z * Response * list Call :=
  callHandlerFrom handler pp 0 payload StatusOK resp [].

(** ** writeEntity, getTimeoutChan *)

Definition writeEntity (w : option WriterPtr) (conn : ResponseWriter)
    (i : Response) : ResponseWriter * option GoError :=
  match w with
  | None => (conn, Some "writer is nil")
  | Some _ =>
      match encodeError (entityOf i) with
      | Some err => (conn, Some err)
      | None =>
          ({| Header := Header conn;
              sent := sent conn ++ [WroteBody (entityOf i)] |}, None)
      end
  end.

(** [time.Duration] counts nanoseconds. [Duration.Seconds] is
    [float64(d / Second) + float64(d % Second) / 1e9]; the model computes
    the same sum over the rationals, float rounding being monotone and
    exact at zero. *)
Definition Second : Z := 1000000000.

Definition Seconds (d : Z) : Q :=
  (inject_Z (Z.quot d Second) + inject_Z (Z.rem d Second) / inject_Z Second)%Q.

(** A [<-chan time.Time]: [After d] delivers one value, [d] after its
    creation; nothing is ever sent on [MakeChan]. *)
Inductive TimerChan : Type :=
| After (d : Z)
| MakeChan.

Definition getTimeoutChan (timeout : Z) : TimerChan :=
  if Qlt_le_dec 0 (Seconds timeout) then After timeout else MakeChan.

(** ** HandlePayload *)

(** The error of a request that ran out of time. *)
Definition responseTimeoutErr : Error :=
  skyerr.NewError skyerr.ResponseTimeout "Service taking too long to respond.".

(** The state a request's Response pointer gives access to, and the calls
    made so far. *)
Record World : Type := mkWorld {
  resp : Response;
  conn : ResponseWriter;
  calls : list Call
}.

(** [writer.Header().Set("Content-Type", "application/json")]. *)
Definition setContentType (h : gmap string string) : gmap string string :=
  <["Content-Type" := "application/json"]> h.

(** [if resp.Err != nil && httpStatus >= 200 && httpStatus <= 299]: the
    status written for a Response whose error is [err]. *)
Definition resolveStatus (err : option Error) (httpStatus : Z) : Z :=
  match err with
  | Some e =>
      if decide (200 <= httpStatus /\ httpStatus <= 299)
      then defaultStatusCode e else httpStatus
  | None => httpStatus
  end.

(** The deferred function of [HandlePayload]. [recovered] is what
    [recover()] returns; [timedOut] and [httpStatus] are the variables of
    [HandlePayload] it closes over. It ends in [panic(err)] when
    [writeEntity] fails. The log lines it emits are left out. *)
Definition finalizer (recovered : option PanicValue) (timedOut : bool)
    (httpStatus : Z) (w : World) : World * option PanicValue :=
  let resp :=
    match recovered with
    | Some r => setErr (resp w) (Some (errorFromRecoveringPanic r))
    | None => resp w
    end in
  match Writer resp with
  | None => ({| resp := resp; conn := conn w; calls := calls w |}, None)
  | Some wr =>
      let header := setContentType (Header (conn w)) in
      let resp :=
        if timedOut then setErr resp (Some responseTimeoutErr) else resp in
      let httpStatus := resolveStatus (Err resp) httpStatus in
      let conn :=
        {| Header := header;
           sent := sent (conn w) ++ [WroteHeader header httpStatus] |} in
      let '(conn, err) := writeEntity (Some wr) conn resp in
      ({| resp := resp; conn := conn; calls := calls w |}, err)
  end.

(** Which case of the [select] is taken, and when. In [TimerFirst k] and
    [ContextCancelled k] the goroutine has completed [k] calls of the
    chain; [ContextCancelled] is the cancellation of the request's own
    context by its owner. Each call of a processor or of the handler is
    observed as a whole. *)
Inductive Race : Type :=
| WorkerDone
| TimerFirst (k : nat)
| ContextCancelled (k : nat).

(** No value arrives on [MakeChan]: the [select] then waits for
    [Done()]. *)
Definition selectCase (timer : TimerChan) (race : Race) : Race :=
  match race, timer with
  | TimerFirst _, MakeChan => WorkerDone
  | _, _ => race
  end.

(** Where the goroutine stands after [k] completed calls. *)
Inductive Progress : Type :=
| Finished (httpStatus : Z) (resp : Response) (calls : list Call)
| InFlight (httpStatus : Z) (resp : Response) (calls : list Call).

Definition workerAt (k : nat) (handler : Handler) (pp : list Processor)
    (payload : Payload) (resp : Response) : Progress :=
  match preprocessLoop (take k pp) 0 payload StatusOK resp [] with
  | (LoopEnd httpStatus resp', calls) =>
      if decide (k <= length pp)%nat
      then InFlight httpStatus resp' calls
      else let '(s, r, c) := callHandler handler pp payload resp in
           Finished s r c
  | _ =>
      let '(s, r, c) := callHandler handler pp payload resp in
      Finished s r c
  end.

(** The [select] taken while the goroutine has completed [k] calls: the
    deferred function runs on what the goroutine has left in the Response;
    a goroutine still in flight then runs on, on the same Response. *)
Definition finalizeAt (timedOut : bool) (k : nat) (rc : routeConfig)
    (payload : Payload) (w : World) : World * option PanicValue :=
  match workerAt k (rcHandler rc) (Preprocessors rc) payload (resp w) with
  | Finished httpStatus resp' cs =>
      finalizer None timedOut httpStatus
        {| resp := resp'; conn := conn w; calls := calls w ++ cs |}
  | InFlight local resp' cs =>
      let '(w1, err) :=
        finalizer None timedOut StatusOK
          {| resp := resp'; conn := conn w; calls := calls w ++ cs |} in
      let '(_, resp'', cs') :=
        callHandlerFrom (rcHandler rc) (drop k (Preprocessors rc)) k payload
          local (resp w1) cs in
      ({| resp := resp''; conn := conn w1; calls := calls w ++ cs' |}, err)
  end.

Definition HandlePayload (r : commonRouter) (race : Race)
    (payload : Payload) (w : World) : World * option PanicValue :=
  match matchHandlerFunc r payload with
  | Panics v => finalizer (Some v) false StatusOK w
  | Returns (inr err) =>
      finalizer None false StatusNotFound
        {| resp := setErr (resp w)
                     (Some (skyerr.NewError skyerr.UndefinedOperation err));
           conn := conn w; calls := calls w |}
  | Returns (inl rc) =>
      let payload := SetContext payload (WithRequestTag (Ctx payload) (Tag rc)) in
      match selectCase (getTimeoutChan (ResponseTimeout r)) race with
      | WorkerDone =>
          let '(httpStatus, resp', cs) :=
            callHandler (rcHandler rc) (Preprocessors rc) payload (resp w) in
          finalizer None false httpStatus
            {| resp := resp'; conn := conn w; calls := calls w ++ cs |}
      | TimerFirst k => finalizeAt true k rc payload w
      | ContextCancelled k => finalizeAt false k rc payload w
      end
  end.

(** ** ServeHTTP *)

Definition TrimPrefix (s prefix : string) : string :=
  if String.prefix prefix s
  then String.substring (String.length prefix)
         (String.length s - String.length prefix) s
  else s.

Definition ServeHTTP (r : commonRouter) (race : Race) (w : ResponseWriter)
    (req : Request) : World * option PanicValue :=
  let version := TrimPrefix Version "v" in
  let w := {| Header := <["Server" := "Skygear Server/" +:+ version]> (Header w);
              sent := sent w |} in
  let resp := {| writer := Some ToConn; Err := None; Result := None |} in
  match payloadFunc r req with
  | inr err =>
      let e := NewRequestJSONInvalidErr err in
      let resp := setErr resp (Some e) in
      let httpStatus := defaultStatusCode e in
      ({| resp := resp;
          conn := {| Header := Header w;
                     sent := sent w ++ [WroteHeader (Header w) httpStatus] |};
          calls := [] |}, None)
  | inl payload => HandlePayload r race payload {| resp := resp; conn := w; calls := [] |}
  end.

(** ** Vocabulary of the properties *)

(** [Passes payload pp resp hint resp' hint']: started on [resp], every
    processor of [pp] returns and leaves [resp.Err] nil; [resp'] is the
    Response the last one leaves and [hint'] the status it returns ([resp]
    and [hint] when [pp] is empty). *)
Inductive Passes (payload : Payload)
    : list Processor -> Response -> Z -> Response -> Z -> Prop :=
| Passes_nil resp hint : Passes payload [] resp hint resp hint
| Passes_cons p rest resp hint resp1 hint1 resp' hint' :
    Preprocess p payload resp = (resp1, Returns hint1) ->
    Err resp1 = None ->
    Passes payload rest resp1 hint1 resp' hint' ->
    Passes payload (p :: rest) resp hint resp' hint'.

(** The calls of processors [i], [i+1], ..., [i+n-1]. *)
Definition preprocessCalls (i n : nat) : list Call :=
  CallPreprocess <$> seq i n.

(** The Response the deferred function leaves when there is a writer: the
    error of a recovered panic, then the timeout error, are stored in
    [resp.Err]. *)
Definition finalResponse (recovered : option PanicValue) (timedOut : bool)
    (resp : Response) : Response :=
  let resp :=
    match recovered with
    | Some r => setErr resp (Some (errorFromRecoveringPanic r))
    | None => resp
    end in
  if timedOut then setErr resp (Some responseTimeoutErr) else resp.

(** ** Properties of the chain *)

Lemma preprocessCalls_snoc i n :
  preprocessCalls i (S n) = preprocessCalls i n ++ [CallPreprocess (i + n)].
Proof. unfold preprocessCalls. by rewrite seq_S, fmap_app. Qed.

Lemma preprocessCalls_cons i n :
  preprocessCalls i (S n) = CallPreprocess i :: preprocessCalls (S i) n.
Proof. reflexivity. Qed.

Lemma preprocessLoop_passes payload pp resp hint resp' hint' :
  Passes payload pp resp hint resp' hint' ->
  forall i cs,
    preprocessLoop pp i payload hint resp cs
    = (LoopEnd hint' resp', cs ++ preprocessCalls i (length pp)).
Proof.
  induction 1 as [resp hint|p rest resp hint resp1 hint1 resp' hint' Hp He _ IH];
    intros i cs; simpl.
  - by rewrite app_nil_r.
  - rewrite Hp, He, IH, preprocessCalls_cons. by rewrite <- app_assoc.
Qed.

Lemma preprocessLoop_app pp1 pp2 payload :
  forall i hint resp cs hint1 resp1 cs1,
    preprocessLoop pp1 i payload hint resp cs = (LoopEnd hint1 resp1, cs1) ->
    preprocessLoop (pp1 ++ pp2) i payload hint resp cs
    = preprocessLoop pp2 (i + length pp1) payload hint1 resp1 cs1.
Proof.
  induction pp1 as [|p pp1 IH]; intros i hint resp cs hint1 resp1 cs1; simpl.
  - intros [= -> -> ->]. by rewrite Nat.add_0_r.
  - destruct (Preprocess p payload resp) as [r [h|v]]; [|done].
    destruct (Err r); [by case_decide|].
    intros H. rewrite (IH _ _ _ _ _ _ _ H). f_equal. lia.
Qed.

(** The loop over a list that begins with processors that all pass. *)
Lemma preprocessLoop_after_passes payload pp1 pp2 resp hint resp1 hint1 :
  Passes payload pp1 resp hint resp1 hint1 ->
  preprocessLoop (pp1 ++ pp2) 0 payload hint resp []
  = preprocessLoop pp2 (length pp1) payload hint1 resp1
      (preprocessCalls 0 (length pp1)).
Proof.
  intros H. by rewrite (preprocessLoop_app _ _ _ _ _ _ _ _ _ _
                          (preprocessLoop_passes _ _ _ _ _ _ H 0 [])).
Qed.

(** C2: the chain is fail-fast. When processors [pp1] all pass and the next
    processor [p] returns [hint] with [resp.Err] set to [e], [callHandler]
    has called exactly the processors up to [p], in order, and neither a
    later processor nor the handler; it returns the default status of [e],
    or [hint] when [p] returned a status other than 200. When every
    processor passes, all of them are called in order and then the handler,
    once. *)
Theorem callHandler_fail_fast handler payload resp :
  (forall pp1 p pp2 resp1 hint1 resp2 hint e,
      Passes payload pp1 resp StatusOK resp1 hint1 ->
      Preprocess p payload resp1 = (resp2, Returns hint) ->
      Err resp2 = Some e ->
      callHandler handler (pp1 ++ p :: pp2) payload resp
      = (if decide (hint = StatusOK) then defaultStatusCode e else hint,
         resp2, preprocessCalls 0 (S (length pp1))))
  /\ (forall pp resp1 hint1,
        Passes payload pp resp StatusOK resp1 hint1 ->
        (callHandler handler pp payload resp).2
        = preprocessCalls 0 (length pp) ++ [CallHandle]).
Proof.
  split.
  - intros pp1 p pp2 resp1 hint1 resp2 hint e Hpass Hp He.
    unfold callHandler, callHandlerFrom, callHandlerBody.
    rewrite (preprocessLoop_after_passes _ _ _ _ _ _ _ Hpass). simpl.
    rewrite Hp, He, preprocessCalls_snoc. by case_decide.
  - intros pp resp1 hint1 Hpass.
    unfold callHandler, callHandlerFrom, callHandlerBody.
    rewrite (preprocessLoop_passes _ _ _ _ _ _ Hpass). simpl.
    by destruct (Handle handler payload resp1) as [r [[]|v]].
Qed.

(** ** Properties of the deadline *)

Lemma Seconds_pos d : (0 < Seconds d)%Q <-> 0 < d.
Proof.
  clear. unfold Seconds, Second, Qlt. cbn. rewrite !Z.mul_1_r.
  Z.to_euclidean_division_equations. lia.
Qed.

Lemma getTimeoutChan_pos d : 0 < d -> getTimeoutChan d = After d.
Proof.
  intros Hd. unfold getTimeoutChan.
  destruct (Qlt_le_dec 0 (Seconds d)) as [|Hle]; [done|].
  apply (proj2 (Seconds_pos d)) in Hd. by apply Qlt_not_le in Hd.
Qed.

Lemma getTimeoutChan_nonpos d : d <= 0 -> getTimeoutChan d = MakeChan.
Proof.
  intros Hd. unfold getTimeoutChan.
  destruct (Qlt_le_dec 0 (Seconds d)) as [Hlt|]; [|done].
  apply (proj1 (Seconds_pos d)) in Hlt. clear -Hd Hlt. lia.
Qed.

(** ** Properties of the deferred function *)

(** With a writer, the deferred function sends the header, and then the
    body unless the encoder fails. *)
Lemma finalizer_writes recovered timedOut httpStatus (w : World) wr :
  writer (resp w) = Some wr ->
  finalizer recovered timedOut httpStatus w
  = ({| resp := finalResponse recovered timedOut (resp w);
        conn :=
          {| Header := setContentType (Header (conn w));
             sent :=
               sent (conn w)
               ++ WroteHeader (setContentType (Header (conn w)))
                    (resolveStatus
                       (Err (finalResponse recovered timedOut (resp w)))
                       httpStatus)
                  :: match encodeError
                             (entityOf (finalResponse recovered timedOut (resp w)))
                     with
                     | Some _ => []
                     | None =>
                         [WroteBody
                            (entityOf (finalResponse recovered timedOut (resp w)))]
                     end |};
        calls := calls w |},
     encodeError (entityOf (finalResponse recovered timedOut (resp w)))).
Proof.
  intros Hw. unfold finalizer, Writer, finalResponse.
  assert (writer match recovered with
                 | Some r => setErr (resp w) (Some (errorFromRecoveringPanic r))
                 | None => resp w
                 end = Some wr) as -> by (by destruct recovered).
  unfold writeEntity. destruct (encodeError _); simpl; [done|].
  by rewrite <- app_assoc.
Qed.


(** Every header the deferred function sends has the JSON content type. *)
Lemma finalizer_content_type recovered timedOut httpStatus (w : World) h s :
  WroteHeader h s ∈ sent (conn (finalizer recovered timedOut httpStatus w).1) ->
  WroteHeader h s ∈ sent (conn w)
  \/ h !! "Content-Type" = Some "application/json".
Proof.
  unfold finalizer, Writer.
  destruct (writer _); [|by left].
  unfold writeEntity.
  destruct (encodeError _); simpl;
    rewrite ?elem_of_app, ?list_elem_of_singleton;
    [intros [H|H]|intros [[H|H]|H]]; try (by left); try done;
    injection H as -> _; right; apply lookup_insert_eq.
Qed.

(** ** Properties of the race *)


(** Observing the goroutine between two calls and letting it run on is
    running [callHandler]. *)
Lemma callHandler_resume k handler pp payload resp snap hint :
  (k <= length pp)%nat ->
  Passes payload (take k pp) resp StatusOK snap hint ->
  callHandler handler pp payload resp
  = callHandlerFrom handler (drop k pp) k payload hint snap (preprocessCalls 0 k).
Proof.
  intros Hk Hpass. unfold callHandler, callHandlerFrom, callHandlerBody.
  rewrite <- (take_drop k pp) at 1.
  rewrite (preprocessLoop_after_passes _ _ _ _ _ _ _ Hpass).
  by rewrite length_take, Nat.min_l.
Qed.



Lemma finalizeAt_content_type timedOut k rc payload (w : World) h s :
  WroteHeader h s ∈ sent (conn (finalizeAt timedOut k rc payload w).1) ->
  WroteHeader h s ∈ sent (conn w)
  \/ h !! "Content-Type" = Some "application/json".
Proof.
  unfold finalizeAt.
  destruct (workerAt _ _ _ _ _) as [hs r cs|hs r cs].
  - intros H. by apply finalizer_content_type in H.
  - destruct (finalizer _ _ _ _) as [w1 err] eqn:F.
    destruct (callHandlerFrom _ _ _ _ _ _ _) as [[? ?] ?]. simpl.
    intros H. replace w1 with (finalizer None timedOut StatusOK
      {| resp := r; conn := conn w; calls := calls w ++ cs |}).1 in H
      by (by rewrite F).
    by apply finalizer_content_type in H.
Qed.

(** Every header [HandlePayload] sends has the JSON content type. *)
Lemma HandlePayload_content_type r race payload (w : World) h s :
  WroteHeader h s ∈ sent (conn (HandlePayload r race payload w).1) ->
  WroteHeader h s ∈ sent (conn w)
  \/ h !! "Content-Type" = Some "application/json".
Proof.
  unfold HandlePayload.
  destruct (matchHandlerFunc r payload) as [[rc|err]|p].
  - destruct (selectCase _ _).
    + destruct (callHandler _ _ _ _) as [[? ?] ?].
      intros H. by apply finalizer_content_type in H.
    + apply finalizeAt_content_type.
    + apply finalizeAt_content_type.
  - intros H. by apply finalizer_content_type in H.
  - intros H. by apply finalizer_content_type in H.
Qed.

(** ** The dispatcher *)


(** C3: a panic in the chain is recovered. When a processor, reached after
    processors that all pass, or the handler, reached after the whole chain
    passed, panics with [v], [callHandler] returns: [resp.Err] is the
    [InternalFault] error built from [v], on the Response as the panicking
    call left it, and the status is the default status of that error. A
    panic of the matcher is recovered by the deferred function of
    [HandlePayload], which returns after writing that error with its
    default status. *)
Theorem callHandler_recovers_panic handler payload (start : Response) :
  (forall pp1 p pp2 resp1 hint1 resp2 v,
      Passes payload pp1 start StatusOK resp1 hint1 ->
      Preprocess p payload resp1 = (resp2, Panics v) ->
      callHandler handler (pp1 ++ p :: pp2) payload start
      = (defaultStatusCode (errorFromRecoveringPanic v),
         setErr resp2 (Some (errorFromRecoveringPanic v)),
         preprocessCalls 0 (S (length pp1))))
  /\ (forall pp resp1 hint1 resp2 v,
        Passes payload pp start StatusOK resp1 hint1 ->
        Handle handler payload resp1 = (resp2, Panics v) ->
        callHandler handler pp payload start
        = (defaultStatusCode (errorFromRecoveringPanic v),
           setErr resp2 (Some (errorFromRecoveringPanic v)),
           preprocessCalls 0 (length pp) ++ [CallHandle]))
  /\ (forall (r : commonRouter) race (w : World) v wr,
        matchHandlerFunc r payload = Panics v ->
        writer (resp w) = Some wr ->
        encodeError {| entErr := Some (errorFromRecoveringPanic v);
                       entResult := Result (resp w) |} = None ->
        HandlePayload r race payload w
        = ({| resp := setErr (resp w) (Some (errorFromRecoveringPanic v));
              conn :=
                {| Header := setContentType (Header (conn w));
                   sent := sent (conn w)
                           ++ [WroteHeader (setContentType (Header (conn w)))
                                 (defaultStatusCode (errorFromRecoveringPanic v));
                               WroteBody
                                 {| entErr := Some (errorFromRecoveringPanic v);
                                    entResult := Result (resp w) |}] |};
              calls := calls w |}, None))
  /\ (forall v, skyerr.Code (errorFromRecoveringPanic v) = skyerr.InternalFault
               /\ skyerr.Message (errorFromRecoveringPanic v) = panicMessage v).
Proof.
  split; [|split; [|split]].
  - intros pp1 p pp2 resp1 hint1 resp2 v Hpass Hp.
    unfold callHandler, callHandlerFrom, callHandlerBody.
    rewrite (preprocessLoop_after_passes _ _ _ _ _ _ _ Hpass). simpl.
    by rewrite Hp, preprocessCalls_snoc.
  - intros pp resp1 hint1 resp2 v Hpass Hh.
    unfold callHandler, callHandlerFrom, callHandlerBody.
    rewrite (preprocessLoop_passes _ _ _ _ _ _ Hpass). simpl.
    by rewrite Hh.
  - intros r race w v wr Hm Hw Henc. unfold HandlePayload. rewrite Hm.
    rewrite (finalizer_writes (Some v) false StatusOK w wr Hw).
    unfold finalResponse, entityOf. simpl. by rewrite Henc.
  - done.
Qed.


(** C7: [getTimeoutChan d] is [time.After(d)] for a positive [d] and a
    channel nothing is sent on otherwise. With a non-positive
    [ResponseTimeout], whenever the timer would have fired, [HandlePayload]
    waits for the goroutine and writes the Response as [callHandler] left
    it: its error and result in the body, its status resolved from them. *)
Theorem HandlePayload_no_deadline :
  (forall d, 0 < d -> getTimeoutChan d = After d)
  /\ (forall d, d <= 0 -> getTimeoutChan d = MakeChan)
  /\ (forall r rc payload (w : World) race httpStatus resp' cs wr,
        ResponseTimeout r <= 0 ->
        (forall k, race <> ContextCancelled k) ->
        matchHandlerFunc r payload = Returns (inl rc) ->
        callHandler (rcHandler rc) (Preprocessors rc)
          (SetContext payload (WithRequestTag (Ctx payload) (Tag rc))) (resp w)
        = (httpStatus, resp', cs) ->
        writer resp' = Some wr ->
        encodeError (entityOf resp') = None ->
        HandlePayload r race payload w
        = ({| resp := resp';
              conn := {| Header := setContentType (Header (conn w));
                         sent := sent (conn w)
                                 ++ [WroteHeader (setContentType (Header (conn w)))
                                       (resolveStatus (Err resp') httpStatus);
                                     WroteBody (entityOf resp')] |};
              calls := calls w ++ cs |}, None)).
Proof.
  split; [exact getTimeoutChan_pos|split; [exact getTimeoutChan_nonpos|]].
  intros r rc payload w race httpStatus resp' cs wr Ht Hrace Hm Hcall Hw Henc.
  unfold HandlePayload. rewrite Hm, (getTimeoutChan_nonpos _ Ht).
  assert (selectCase MakeChan race = WorkerDone) as ->.
  { destruct race as [|k|k]; try done. by destruct (Hrace k). }
  rewrite Hcall.
  rewrite (finalizer_writes None false httpStatus
             {| resp := resp'; conn := conn w; calls := calls w ++ cs |} wr Hw).
  unfold finalResponse. simpl. by rewrite Henc.
Qed.


(** C4 at a request that fails to decode: [ServeHTTP] sends one header, and
    it has no content type. *)
Theorem decode_failure_lacks_content_type r race (w : ResponseWriter) req err :
  payloadFunc r req = inr err ->
  Header w !! "Content-Type" = None ->
  sent w = [] ->
  exists h status,
    sent (conn (ServeHTTP r race w req).1) = [WroteHeader h status]
    /\ h !! "Content-Type" = None.
Proof.
  intros Hp Hh Hs. unfold ServeHTTP. rewrite Hp. simpl. rewrite Hs.
  eexists _, _. split; [done|]. by rewrite lookup_insert_ne.
Qed.

(** C5 at a request that fails to decode: [ServeHTTP] stores the
    request-malformed error in its Response, sends one header with the
    default status of that error, and returns; it calls neither the
    matcher nor the chain, and it sends no body. *)
Theorem ServeHTTP_decode_failure r race (w : ResponseWriter) req err :
  payloadFunc r req = inr err ->
  ServeHTTP r race w req
  = ({| resp := {| writer := Some ToConn;
                   Err := Some (NewRequestJSONInvalidErr err);
                   Result := None |};
        conn :=
          {| Header := <["Server" := "Skygear Server/" +:+ TrimPrefix Version "v"]>
                         (Header w);
             sent := sent w
                     ++ [WroteHeader
                           (<["Server" := "Skygear Server/" +:+ TrimPrefix Version "v"]>
                              (Header w))
                           (defaultStatusCode (NewRequestJSONInvalidErr err))] |};
        calls := [] |}, None).
Proof. intros Hp. unfold ServeHTTP. by rewrite Hp. Qed.

(** ** Further properties of the dispatcher *)

(** What one run of the deferred function adds to the wire. *)
Lemma finalizer_events recovered timedOut httpStatus (w : World) :
  exists evs,
    sent (conn (finalizer recovered timedOut httpStatus w).1)
    = sent (conn w) ++ evs
    /\ match (finalizer recovered timedOut httpStatus w).2 with
       | Some _ =>
           exists status,
             evs = [WroteHeader (setContentType (Header (conn w))) status]
       | None =>
           evs = []
           \/ exists status e,
               evs = [WroteHeader (setContentType (Header (conn w))) status;
                      WroteBody e]
       end.
Proof.
  unfold finalizer, Writer.
  destruct (writer _).
  - unfold writeEntity. destruct (encodeError _); simpl.
    + eexists. split; [done|]. by eexists.
    + eexists. split; [by rewrite <- app_assoc|]. right. by eexists _, _.
  - exists []. simpl. split; [by rewrite app_nil_r|by left].
Qed.

Lemma finalizeAt_events timedOut k rc payload (w : World) :
  exists evs,
    sent (conn (finalizeAt timedOut k rc payload w).1) = sent (conn w) ++ evs
    /\ match (finalizeAt timedOut k rc payload w).2 with
       | Some _ =>
           exists status,
             evs = [WroteHeader (setContentType (Header (conn w))) status]
       | None =>
           evs = []
           \/ exists status e,
               evs = [WroteHeader (setContentType (Header (conn w))) status;
                      WroteBody e]
       end.
Proof.
  unfold finalizeAt.
  destruct (workerAt _ _ _ _ _) as [hs r cs|hs r cs].
  - apply (finalizer_events None timedOut hs
             {| resp := r; conn := conn w; calls := calls w ++ cs |}).
  - pose proof (finalizer_events None timedOut StatusOK
                  {| resp := r; conn := conn w; calls := calls w ++ cs |}) as H.
    destruct (finalizer _ _ _ _) as [w1 err].
    by destruct (callHandlerFrom _ _ _ _ _ _ _) as [[? ?] ?].
Qed.

Lemma HandlePayload_events r race payload (w : World) :
  exists evs,
    sent (conn (HandlePayload r race payload w).1) = sent (conn w) ++ evs
    /\ match (HandlePayload r race payload w).2 with
       | Some _ =>
           exists status,
             evs = [WroteHeader (setContentType (Header (conn w))) status]
       | None =>
           evs = []
           \/ exists status e,
               evs = [WroteHeader (setContentType (Header (conn w))) status;
                      WroteBody e]
       end.
Proof.
  unfold HandlePayload.
  destruct (matchHandlerFunc r payload) as [[rc|err]|p].
  - destruct (selectCase _ _).
    + destruct (callHandler _ _ _ _) as [[hs r'] cs].
      apply (finalizer_events None false hs
               {| resp := r'; conn := conn w; calls := calls w ++ cs |}).
    + apply finalizeAt_events.
    + apply finalizeAt_events.
  - apply (finalizer_events None false StatusNotFound
             {| resp := setErr (resp w)
                          (Some (skyerr.NewError skyerr.UndefinedOperation err));
                conn := conn w; calls := calls w |}).
  - apply finalizer_events.
Qed.


(** X2: when no route matches, [HandlePayload] calls no processor and no
    handler, whatever the outcome of the race would be, and writes status
    404 with an [UndefinedOperation] error that carries the matcher's
    message. *)
Theorem HandlePayload_route_not_found r race payload (w : World) err wr :
  matchHandlerFunc r payload = Returns (inr err) ->
  writer (resp w) = Some wr ->
  encodeError {| entErr := Some (skyerr.NewError skyerr.UndefinedOperation err);
                 entResult := Result (resp w) |} = None ->
  HandlePayload r race payload w
  = ({| resp := setErr (resp w)
                  (Some (skyerr.NewError skyerr.UndefinedOperation err));
        conn :=
          {| Header := setContentType (Header (conn w));
             sent := sent (conn w)
                     ++ [WroteHeader (setContentType (Header (conn w)))
                           StatusNotFound;
                         WroteBody
                           {| entErr := Some (skyerr.NewError
                                                skyerr.UndefinedOperation err);
                              entResult := Result (resp w) |}] |};
        calls := calls w |}, None).
Proof.
  intros Hm Hw Henc. unfold HandlePayload. rewrite Hm.
  rewrite (finalizer_writes None false StatusNotFound
             {| resp := setErr (resp w)
                          (Some (skyerr.NewError skyerr.UndefinedOperation err));
                conn := conn w; calls := calls w |} wr Hw).
  unfold finalResponse, entityOf. simpl. by rewrite Henc.
Qed.

(** X3: when every processor passes and the handler returns,
    [callHandler] returns the status the last processor returned (200 when
    there is no processor) and the Response as the handler left it: the
    handler has no say in the status. *)
Theorem callHandler_all_pass handler pp payload (start : Response)
    resp1 hint1 resp2 :
  Passes payload pp start StatusOK resp1 hint1 ->
  Handle handler payload resp1 = (resp2, Returns tt) ->
  callHandler handler pp payload start
  = (hint1, resp2, preprocessCalls 0 (length pp) ++ [CallHandle]).
Proof.
  intros Hpass Hh. unfold callHandler, callHandlerFrom, callHandlerBody.
  rewrite (preprocessLoop_passes _ _ _ _ _ _ Hpass). simpl. by rewrite Hh.
Qed.




(** X6: every header [ServeHTTP] sends carries the [Server] header, made of
    the product name and the version without its leading "v". *)
Theorem ServeHTTP_server_header r race (w : ResponseWriter) req h status :
  WroteHeader h status ∈ sent (conn (ServeHTTP r race w req).1) ->
  WroteHeader h status ∈ sent w
  \/ h !! "Server" = Some ("Skygear Server/" +:+ TrimPrefix Version "v").
Proof.
  unfold ServeHTTP. destruct (payloadFunc r req) as [payload|err].
  - destruct (HandlePayload_events r race payload
                {| resp := {| writer := Some ToConn; Err := None; Result := None |};
                   conn := {| Header := <["Server" := "Skygear Server/"
                                            +:+ TrimPrefix Version "v"]> (Header w);
                              sent := sent w |};
                   calls := [] |}) as (evs & -> & Hevs).
    simpl. rewrite elem_of_app. intros [H|H]; [by left|right].
    assert (h = setContentType
                  (<["Server" := "Skygear Server/" +:+ TrimPrefix Version "v"]>
                     (Header w))) as ->.
    { destruct (HandlePayload _ _ _ _).2.
      - destruct Hevs as [st ->]. apply list_elem_of_singleton in H.
        by injection H.
      - destruct Hevs as [->|(st & e & ->)]; [by apply elem_of_nil in H|].
        apply elem_of_cons in H as [H|H]; [by injection H|].
        by apply list_elem_of_singleton in H. }
    unfold setContentType. rewrite lookup_insert_ne by done.
    apply lookup_insert_eq.
  - simpl. rewrite elem_of_app, list_elem_of_singleton.
    intros [H|H]; [by left|right]. injection H as -> _.
    apply lookup_insert_eq.
Qed.


End Dispatch.

(** ** The dispatcher on sample requests *)

(** Sample collaborators: a status table, message formats, an encoder that
    never fails and one that always does. Requests, payload data and
    result bodies are strings. *)
Definition sampleStatusCode (e : Error) : Z :=
  match skyerr.Code e with
  | skyerr.RequestJSONInvalid => 400
  | skyerr.UndefinedOperation => 404
  | skyerr.ResponseTimeout => 503
  | skyerr.InternalFault => 500
  | skyerr.OtherCode _ => 401
  end.

Definition sampleMessage (s : string) : string := s.

Definition encodeAlways (e : @Entity string) : option GoError := None.


Definition payload0 : @Payload string :=
  {| Ctx := {| RequestTag := None; RequestID := Some "req-1" |};
     PayloadData := "{}" |}.

Definition resp0 : @Response string :=
  {| writer := Some ToConn; Err := None; Result := None |}.

Definition world0 : @World string :=
  {| resp := resp0; conn := {| Header := ∅; sent := [] |}; calls := [] |}.

Definition accessDenied : Error :=
  skyerr.NewError (skyerr.OtherCode 101) "access denied".

(** Processors: one that passes, one that stores a result and passes, one
    that sets an error and returns 200, one that sets an error and returns
    403, one that panics. *)
Definition pPass : @Processor string string :=
  {| Preprocess := fun _ resp => (resp, Returns 200) |}.

Definition pEarly : @Processor string string :=
  {| Preprocess := fun _ resp =>
       ({| writer := writer resp; Err := Err resp; Result := Some "early" |},
        Returns 200) |}.

Definition pDeny : @Processor string string :=
  {| Preprocess := fun _ resp => (setErr resp (Some accessDenied), Returns 200) |}.

Definition pForbid : @Processor string string :=
  {| Preprocess := fun _ resp => (setErr resp (Some accessDenied), Returns 403) |}.

Definition pPanic : @Processor string string :=
  {| Preprocess := fun _ resp => (resp, Panics "index out of range") |}.

(** Handlers: one that stores a result, one that leaves the Response as it
    is, one that panics. *)
Definition hDone : @Handler string string :=
  {| Handle := fun _ resp =>
       ({| writer := writer resp; Err := Err resp; Result := Some "done" |},
        Returns tt) |}.


Definition hPanic : @Handler string string :=
  {| Handle := fun _ resp => (resp, Panics "nil pointer dereference") |}.

Definition route (pp : list Processor) (h : Handler) : @routeConfig string string :=
  {| Tag := "sample:op"; Preprocessors := pp; rcHandler := h |}.

(** Routers: every payload decodes and matches [rc]; no payload matches;
    no request decodes; the matcher panics. *)
Definition routerTo (rc : routeConfig) (timeout : Z)
    : @commonRouter string string string :=
  {| payloadFunc := fun _ => inl payload0;
     matchHandlerFunc := fun _ => Returns (inl rc);
     ResponseTimeout := timeout |}.

Definition routerNoRoute : @commonRouter string string string :=
  {| payloadFunc := fun _ => inl payload0;
     matchHandlerFunc := fun _ => Returns (inr "route unmatched");
     ResponseTimeout := 0 |}.

Definition routerBadJSON : @commonRouter string string string :=
  {| payloadFunc := fun _ => inr "unexpected end of JSON input";
     matchHandlerFunc := fun _ => Returns (inl (route [] hDone));
     ResponseTimeout := 0 |}.

Definition routerMatchPanics : @commonRouter string string string :=
  {| payloadFunc := fun _ => inl payload0;
     matchHandlerFunc := fun _ => Panics "routes: nil map";
     ResponseTimeout := 0 |}.

(** 50ms, in nanoseconds. *)
Definition ms50 : Z := 50000000.

Lemma callHandler_fail_fast_witness :
  callHandler sampleStatusCode sampleMessage hDone
    ([pPass] ++ pDeny :: [pEarly]) payload0 resp0
  = (401, setErr resp0 (Some accessDenied), [CallPreprocess 0; CallPreprocess 1])
  /\ callHandler sampleStatusCode sampleMessage hDone
       ([pPass] ++ pForbid :: [pEarly]) payload0 resp0
     = (403, setErr resp0 (Some accessDenied), [CallPreprocess 0; CallPreprocess 1])
  /\ (callHandler sampleStatusCode sampleMessage hDone
        [pPass; pEarly] payload0 resp0).2
     = [CallPreprocess 0; CallPreprocess 1; CallHandle].
Proof.
  pose proof (callHandler_fail_fast sampleStatusCode sampleMessage hDone
                payload0 resp0) as [Hhalt Hall].
  split; [|split].
  - apply (Hhalt [pPass] pDeny [pEarly] resp0 200 _ 200 accessDenied);
      [|reflexivity|reflexivity].
    eapply Passes_cons; [reflexivity|reflexivity|apply Passes_nil].
  - apply (Hhalt [pPass] pForbid [pEarly] resp0 200 _ 403 accessDenied);
      [|reflexivity|reflexivity].
    eapply Passes_cons; [reflexivity|reflexivity|apply Passes_nil].
  - eapply (Hall [pPass; pEarly] _ 200).
    eapply Passes_cons; [reflexivity|reflexivity|].
    eapply Passes_cons; [reflexivity|reflexivity|apply Passes_nil].
Defined.

Lemma callHandler_recovers_panic_witness :
  callHandler sampleStatusCode sampleMessage hDone
    ([pPass] ++ pPanic :: [pEarly]) payload0 resp0
  = (500,
     setErr resp0 (Some (skyerr.NewError skyerr.InternalFault "index out of range")),
     [CallPreprocess 0; CallPreprocess 1])
  /\ callHandler sampleStatusCode sampleMessage hPanic [pPass] payload0 resp0
     = (500,
        setErr resp0
          (Some (skyerr.NewError skyerr.InternalFault "nil pointer dereference")),
        [CallPreprocess 0; CallHandle])
  /\ HandlePayload sampleStatusCode sampleMessage encodeAlways
       routerMatchPanics WorkerDone payload0 world0
     = ({| resp := setErr resp0
                     (Some (skyerr.NewError skyerr.InternalFault
                              "routes: nil map"));
           conn :=
             {| Header := setContentType ∅;
                sent := [WroteHeader (setContentType ∅) 500;
                         WroteBody
                           {| entErr := Some (skyerr.NewError skyerr.InternalFault
                                                "routes: nil map");
                              entResult := None |}] |};
           calls := [] |}, None).
Proof.
  pose proof (callHandler_recovers_panic (Request:=string) sampleStatusCode
                sampleMessage encodeAlways hDone payload0 resp0)
    as (Hp & _ & Hm & _).
  pose proof (callHandler_recovers_panic (Request:=string) sampleStatusCode
                sampleMessage encodeAlways hPanic payload0 resp0)
    as (_ & Hh & _).
  split; [|split].
  - apply (Hp [pPass] pPanic [pEarly] resp0 200 resp0 "index out of range");
      [|reflexivity].
    eapply Passes_cons; [reflexivity|reflexivity|apply Passes_nil].
  - apply (Hh [pPass] resp0 200 resp0 "nil pointer dereference");
      [|reflexivity].
    eapply Passes_cons; [reflexivity|reflexivity|apply Passes_nil].
  - apply (Hm routerMatchPanics WorkerDone world0 "routes: nil map" ToConn);
      reflexivity.
Defined.





(** A 50ms timer exists; a zero timeout gives none, and then the timer
    case of the [select] is never taken: the handler's result is written
    as it is. *)
Lemma HandlePayload_no_deadline_witness :
  getTimeoutChan ms50 = After ms50
  /\ getTimeoutChan 0 = MakeChan
  /\ HandlePayload sampleStatusCode sampleMessage encodeAlways
       (routerTo (route [pPass] hDone) 0) (TimerFirst 1) payload0 world0
     = ({| resp := {| writer := Some ToConn; Err := None; Result := Some "done" |};
           conn := {| Header := setContentType ∅;
                      sent := [WroteHeader (setContentType ∅) 200;
                               WroteBody {| entErr := None;
                                            entResult := Some "done" |}] |};
           calls := [CallPreprocess 0; CallHandle] |}, None).
Proof.
  destruct (HandlePayload_no_deadline (Request:=string) (Data:=string)
              sampleStatusCode sampleMessage encodeAlways) as (Hpos & Hnon & Hrun).
  split; [|split].
  - apply Hpos. reflexivity.
  - apply Hnon. discriminate.
  - apply (Hrun (routerTo (route [pPass] hDone) 0) (route [pPass] hDone)
             payload0 world0 (TimerFirst 1) 200
             {| writer := Some ToConn; Err := None; Result := Some "done" |}
             [CallPreprocess 0; CallHandle] ToConn);
      [discriminate|discriminate|reflexivity|reflexivity|reflexivity|reflexivity].
Defined.


Lemma decode_failure_lacks_content_type_witness :
  exists h status,
    sent (conn (ServeHTTP sampleStatusCode sampleMessage sampleMessage "v1.7.0"
                  encodeAlways routerBadJSON WorkerDone
                  {| Header := ∅; sent := [] |} "{").1)
    = [WroteHeader h status]
    /\ h !! "Content-Type" = None.
Proof.
  apply (decode_failure_lacks_content_type sampleStatusCode sampleMessage
           sampleMessage "v1.7.0" encodeAlways routerBadJSON WorkerDone
           {| Header := ∅; sent := [] |} "{" "unexpected end of JSON input");
    reflexivity.
Defined.

Lemma ServeHTTP_decode_failure_witness :
  ServeHTTP sampleStatusCode sampleMessage sampleMessage "v1.7.0"
    encodeAlways routerBadJSON WorkerDone {| Header := ∅; sent := [] |} "{"
  = ({| resp := {| writer := Some ToConn;
                   Err := Some (skyerr.NewError skyerr.RequestJSONInvalid
                                  "unexpected end of JSON input");
                   Result := None |};
        conn := {| Header := {[ "Server" := "Skygear Server/1.7.0" ]};
                   sent := [WroteHeader {[ "Server" := "Skygear Server/1.7.0" ]}
                              400] |};
        calls := [] |}, None).
Proof.
  apply (ServeHTTP_decode_failure sampleStatusCode sampleMessage sampleMessage
           "v1.7.0" encodeAlways routerBadJSON WorkerDone
           {| Header := ∅; sent := [] |} "{" "unexpected end of JSON input").
  reflexivity.
Defined.

(** Two more processors: one that passes with status 201, one that sets
    an error and returns 202. *)
Definition pCreated : @Processor string string :=
  {| Preprocess := fun _ resp => (resp, Returns 201) |}.


Lemma HandlePayload_route_not_found_witness :
  HandlePayload sampleStatusCode sampleMessage encodeAlways routerNoRoute
    (TimerFirst 3) payload0 world0
  = ({| resp := setErr resp0
                  (Some (skyerr.NewError skyerr.UndefinedOperation
                           "route unmatched"));
        conn :=
          {| Header := setContentType ∅;
             sent := [WroteHeader (setContentType ∅) 404;
                      WroteBody
                        {| entErr := Some (skyerr.NewError
                                             skyerr.UndefinedOperation
                                             "route unmatched");
                           entResult := None |}] |};
        calls := [] |}, None).
Proof.
  apply (HandlePayload_route_not_found sampleStatusCode sampleMessage
           encodeAlways routerNoRoute (TimerFirst 3) payload0 world0
           "route unmatched" ToConn); reflexivity.
Defined.

Lemma callHandler_all_pass_witness :
  callHandler sampleStatusCode sampleMessage hDone [pPass; pCreated]
    payload0 resp0
  = (201, {| writer := Some ToConn; Err := None; Result := Some "done" |},
     [CallPreprocess 0; CallPreprocess 1; CallHandle]).
Proof.
  apply (callHandler_all_pass sampleStatusCode sampleMessage hDone
           [pPass; pCreated] payload0 resp0 resp0 201
           {| writer := Some ToConn; Err := None; Result := Some "done" |});
    [|reflexivity].
  eapply Passes_cons; [reflexivity|reflexivity|].
  eapply Passes_cons; [reflexivity|reflexivity|apply Passes_nil].
Defined.



Lemma ServeHTTP_server_header_witness :
  WroteHeader ({[ "Server" := "Skygear Server/1.7.0" ]} : gmap string string) 400
  ∈ (sent {| Header := ∅; sent := [] |} : list (@WireEvent string))
  \/ ({[ "Server" := "Skygear Server/1.7.0" ]} : gmap string string) !! "Server"
     = Some ("Skygear Server/" +:+ TrimPrefix "v1.7.0" "v").
Proof.
  apply (ServeHTTP_server_header sampleStatusCode sampleMessage sampleMessage
           "v1.7.0" encodeAlways routerBadJSON WorkerDone
           {| Header := ∅; sent := [] |} "{"
           {[ "Server" := "Skygear Server/1.7.0" ]} 400).
  apply list_elem_of_singleton. reflexivity.
Defined.


End Router.

(* ===================================================================== *)
(** ** asset/fs: the file system asset store *)
Module AssetFS.

(** [int64] arithmetic: the result of an operation is reduced to
    [-2^63 .. 2^63-1]. *)
Definition wrap64 (x : Z) : Z := (x + 2 ^ 63) `mod` 2 ^ 64 - 2 ^ 63.

(** Package [asset]: a byte range, both ends included. *)
Record FileRange : Type := mkFileRange { From : Z; To : Z }.

(** The errors of [GetRangedFileReader]: the range error of package
    [asset], and what [os] returns. *)
Inductive error : Type :=
| FileRangeNotAcceptedError (r : FileRange)
| OSError (err : GoError).

Record AssetStore : Type := mkAssetStore {
  dir : string;
  prefix : string;
  secret : string;
  public : bool
}.

Section Store.

(** An open [*os.File]. *)
Context {File : Type}.

(** [filepath.Join], [filepath.Clean], [os.Open], [File.Stat] followed by
    [Size], and [File.Seek], which returns the file positioned at the new
    offset, and that offset. *)
Variable Join : string -> string -> string.
Variable Clean : string -> string.
Variable Open : string -> File + GoError.
Variable StatSize : File -> Z + GoError.
Variable Seek : File -> Z -> Z -> (File * Z) + GoError.

Record FileRangedGetResult : Type := mkResult {
  ReadCloser : File;
  AcceptedRange : FileRange;
  TotalSize : Z
}.

Definition GetRangedFileReader (s : AssetStore) (name : string)
    (fileRange : FileRange) : FileRangedGetResult + error :=
  let path := Join (dir s) name in
  match Open (Clean path) with
  | inr err => inr (OSError err)
  | inl file =>
      match StatSize file with
      | inr err => inr (OSError err)
      | inl fileSize =>
          if From fileRange >=? fileSize
          then inr (FileRangeNotAcceptedError fileRange)
          else
            match Seek file (From fileRange) 0 with
            | inr err => inr (OSError err)
            | inl (file, _) =>
                let acceptedRange :=
                  {| From := From fileRange; To := To fileRange |} in
                let acceptedRange :=
                  if To acceptedRange >? wrap64 (fileSize - 1)
                  then {| From := From acceptedRange;
                          To := wrap64 (fileSize - 1) |}
                  else acceptedRange in
                inl {| ReadCloser := file;
                       AcceptedRange := acceptedRange;
                       TotalSize := fileSize |}
            end
      end
  end.

Lemma wrap64_id x : - 2 ^ 63 <= x < 2 ^ 63 -> wrap64 x = x.
Proof. clear. intros H. unfold wrap64. rewrite Z.mod_small; lia. Qed.

(** C9: on a file that opens, whose size [S] is read, and on which the
    seek to [From] succeeds when it is made, [GetRangedFileReader] returns
    [FileRangeNotAcceptedError] when [From >= S], and otherwise a result
    with [AcceptedRange.From = From], [AcceptedRange.To = min(To, S-1)]
    and [TotalSize = S]. *)
Theorem GetRangedFileReader_range (s : AssetStore) name fileRange file S :
  Open (Clean (Join (dir s) name)) = inl file ->
  StatSize file = inl S ->
  0 <= S < 2 ^ 63 ->
  (S <= From fileRange ->
   GetRangedFileReader s name fileRange
   = inr (FileRangeNotAcceptedError fileRange))
  /\ (From fileRange < S ->
      forall file' offset,
        Seek file (From fileRange) 0 = inl (file', offset) ->
        GetRangedFileReader s name fileRange
        = inl {| ReadCloser := file';
                 AcceptedRange := {| From := From fileRange;
                                     To := Z.min (To fileRange) (S - 1) |};
                 TotalSize := S |}).
Proof.
  intros Hopen Hstat HS. unfold GetRangedFileReader. rewrite Hopen, Hstat.
  split.
  - intros Hge. by rewrite (proj2 (Z.geb_le _ _) Hge).
  - intros Hlt file' offset Hseek.
    destruct (From fileRange >=? S) eqn:E; [apply Z.geb_le in E; lia|].
    rewrite Hseek, wrap64_id by lia. simpl.
    destruct (To fileRange >? S - 1) eqn:G.
    + rewrite Z.min_r by (apply Z.gtb_lt in G; lia). done.
    + rewrite Z.min_l; [by destruct fileRange|].
      rewrite Z.gtb_ltb in G. apply Z.ltb_ge in G. lia.
Qed.

(** X13: whenever [GetRangedFileReader] returns a result, the file was
    opened, its size read and the seek to [From] made; [TotalSize] is that
    size, [From] is the one asked for and lies before the end of the file,
    and [To] is the one asked for or, when smaller, the last byte of the
    file. *)
Theorem GetRangedFileReader_result (s : AssetStore) name fileRange res :
  GetRangedFileReader s name fileRange = inl res ->
  exists file offset,
    Open (Clean (Join (dir s) name)) = inl file
    /\ StatSize file = inl (TotalSize res)
    /\ Seek file (From fileRange) 0 = inl (ReadCloser res, offset)
    /\ From (AcceptedRange res) = From fileRange
    /\ From fileRange < TotalSize res
    /\ To (AcceptedRange res)
       = Z.min (To fileRange) (wrap64 (TotalSize res - 1))
    /\ (0 <= TotalSize res < 2 ^ 63 ->
        To (AcceptedRange res) <= TotalSize res - 1).
Proof.
  unfold GetRangedFileReader.
  destruct (Open _) as [file|] eqn:Hopen; [|done].
  destruct (StatSize file) as [S|] eqn:Hstat; [|done].
  destruct (From fileRange >=? S) eqn:Hge; [done|].
  destruct (Seek file (From fileRange) 0) as [[file' offset]|] eqn:Hseek; [|done].
  intros [= <-]. simpl. exists file, offset.
  assert (From fileRange < S) as Hlt.
  { clear -Hge. rewrite Z.geb_leb in Hge. apply Z.leb_gt in Hge. lia. }
  assert (To (if To fileRange >? wrap64 (S - 1)
              then {| From := From fileRange; To := wrap64 (S - 1) |}
              else {| From := From fileRange; To := To fileRange |})
          = Z.min (To fileRange) (wrap64 (S - 1))) as HTo.
  { clear. destruct (To fileRange >? wrap64 (S - 1)) eqn:G; simpl.
    - apply Z.gtb_lt in G. lia.
    - rewrite Z.gtb_ltb in G. apply Z.ltb_ge in G. lia. }
  repeat split; try done.
  - by destruct (To fileRange >? wrap64 (S - 1)).
  - intros HS. rewrite HTo, wrap64_id by (clear -HS; lia). clear. lia.
Qed.

(** X14: [GetRangedFileReader] returns the range error only for the range
    it was asked for, and only when the file was opened, its size read,
    and [From] is at or past the end of the file. *)
Theorem GetRangedFileReader_range_error (s : AssetStore) name fileRange r :
  GetRangedFileReader s name fileRange = inr (FileRangeNotAcceptedError r) ->
  r = fileRange
  /\ exists file S,
      Open (Clean (Join (dir s) name)) = inl file
      /\ StatSize file = inl S
      /\ S <= From fileRange.
Proof.
  unfold GetRangedFileReader.
  destruct (Open _) as [file|] eqn:Hopen; [|done].
  destruct (StatSize file) as [S|] eqn:Hstat; [|done].
  destruct (From fileRange >=? S) eqn:Hge.
  - intros [= <-]. split; [done|]. exists file, S. repeat split; try done.
    clear -Hge. apply Z.geb_le in Hge. lia.
  - by destruct (Seek file (From fileRange) 0) as [[? ?]|].
Qed.

End Store.

(** ** PutFileReader *)

Section Upload.

(** An open [*os.File] and an [io.Reader]. *)
Context {File Reader : Type}.

(** [filepath.Join], [filepath.Dir], [os.MkdirAll], [os.Create] and
    [io.Copy], which returns the number of bytes written and an error. *)
Variable Join : string -> string -> string.
Variable Dir : string -> string.
Variable MkdirAll : string -> Z -> option GoError.
Variable Create : string -> File + GoError.
Variable Copy : File -> Reader -> Z * option GoError.

(** The mode [0750]. *)
Definition dirMode : Z := 488.

Definition PutFileReader (s : AssetStore) (name : string) (src : Reader)
    (length : Z) (contentType : string) : option GoError :=
  let path := Join (dir s) name in
  let dir := Dir path in
  match MkdirAll dir dirMode with
  | Some err => Some err
  | None =>
      match Create path with
      | inr err => Some err
      | inl f =>
          match Copy f src with
          | (_, Some err) => Some err
          | (written, None) =>
              if decide (written <> length)
              then Some ("got written " +:+ pretty written
                         +:+ " bytes, expect " +:+ pretty length)
              else None
          end
      end
  end.

(** X15: [PutFileReader] returns nil exactly when the directory was made,
    the file created, and the copy ended without error having written
    [length] bytes; a copy that ends without error on another number of
    bytes is reported with both numbers. *)
Theorem PutFileReader_length (s : AssetStore) name src length contentType :
  (PutFileReader s name src length contentType = None
   <-> MkdirAll (Dir (Join (dir s) name)) dirMode = None
       /\ exists f, Create (Join (dir s) name) = inl f
                    /\ Copy f src = (length, None))
  /\ (forall f written,
        MkdirAll (Dir (Join (dir s) name)) dirMode = None ->
        Create (Join (dir s) name) = inl f ->
        Copy f src = (written, None) ->
        written <> length ->
        PutFileReader s name src length contentType
        = Some ("got written " +:+ pretty written
                +:+ " bytes, expect " +:+ pretty length)).
Proof.
  unfold PutFileReader. split.
  - destruct (MkdirAll _ _) as [e|]; [by split; [|intros [? _]]|].
    destruct (Create _) as [f|e].
    + destruct (Copy f src) as [written [e|]] eqn:Hcopy.
      * split; [done|]. intros [_ (f' & [= <-] & Hc)]. congruence.
      * destruct (decide (written <> length)) as [Hne|Heq].
        -- split; [done|]. intros [_ (f' & [= <-] & Hc)]. congruence.
        -- apply dec_stable in Heq as ->.
           split; [|done]. intros _. split; [done|]. by exists f.
    + split; [done|]. by intros [_ (f' & ? & _)].
  - intros f written -> -> -> Hne. by rewrite decide_True.
Qed.

End Upload.

(** ** SignedURL, ParseSignature *)

(** A [time.Time] is counted in nanoseconds since the Unix epoch;
    [Time.Unix] gives the whole seconds. *)
Definition Minute : Z := 60 * 1000000000.

Definition Unix (t : Z) : Z := t `div` 1000000000.

Definition IsSignatureRequired (s : AssetStore) : bool := negb (public s).

Section Signature.

(** The HMAC-SHA256 of a message under a key, and the encoder and decoder
    of [base64.URLEncoding]; the decoder fails on some texts. *)
Variable HMAC : string -> string -> string.
Variable EncodeToString : string -> string.
Variable DecodeString : string -> option string.

(** [SignedURL] at the time [now]. *)
Definition SignedURL (s : AssetStore) (name : string) (now : Z)
    : string * option GoError :=
  if negb (IsSignatureRequired s)
  then (prefix s +:+ "/" +:+ name, None)
  else
    let expiredAt := now + Minute * 15 in
    let expiredAtStr := pretty (Unix expiredAt) in
    let sum := HMAC (secret s) (name +:+ expiredAtStr) in
    (prefix s +:+ "/" +:+ name +:+ "?expiredAt=" +:+ expiredAtStr
     +:+ "&signature=" +:+ EncodeToString sum, None).

Definition ParseSignature (s : AssetStore) (signed name : string)
    (expiredAt : Z) : bool * option GoError :=
  match DecodeString signed with
  | None => (false, Some "invalid signature")
  | Some remoteSignature =>
      (bool_decide
         (remoteSignature = HMAC (secret s) (name +:+ pretty (Unix expiredAt))),
       None)
  end.

Lemma Unix_after_15_minutes now : Unix (now + Minute * 15) = Unix now + 900.
Proof.
  clear. unfold Unix, Minute.
  replace (now + 60 * 1000000000 * 15) with (now + 900 * 1000000000) by lia.
  by rewrite Z.div_add.
Qed.


(** X17: a signature made by [SignedURL] verifies. For a store that
    requires signatures, the URL is the prefix, the name, the expiry 15
    minutes after [now] in decimal seconds and a signature which
    [ParseSignature] accepts for that name at any time within that
    second. *)
Theorem SignedURL_verifies (s : AssetStore) name now :
  (forall sum, DecodeString (EncodeToString sum) = Some sum) ->
  public s = false ->
  exists signature,
    SignedURL s name now
    = (prefix s +:+ "/" +:+ name +:+ "?expiredAt=" +:+ pretty (Unix now + 900)
       +:+ "&signature=" +:+ signature, None)
    /\ forall expiredAt,
        Unix expiredAt = Unix now + 900 ->
        ParseSignature s signature name expiredAt = (true, None).
Proof.
  intros Hcodec Hpub. unfold SignedURL, IsSignatureRequired. rewrite Hpub. simpl.
  rewrite Unix_after_15_minutes. eexists. split; [done|].
  intros expiredAt Ht. unfold ParseSignature.
  by rewrite Hcodec, Ht, bool_decide_eq_true_2.
Qed.

(** X18: what a signature is bound to. The signed message is the name
    followed by the expiry with nothing between them, so [ParseSignature]
    gives the same answer for two (name, expiry) pairs whose
    concatenations are the same text. *)
Theorem ParseSignature_concatenation (s : AssetStore) signed
    name1 expiredAt1 name2 expiredAt2 :
  name1 +:+ pretty (Unix expiredAt1) = name2 +:+ pretty (Unix expiredAt2) ->
  ParseSignature s signed name1 expiredAt1
  = ParseSignature s signed name2 expiredAt2.
Proof. intros H. unfold ParseSignature. by rewrite H. Qed.

End Signature.

(** A store with one file of 1000 bytes, [/srv/assets/a.png]. *)
Definition sampleOpen (path : string) : string + GoError :=
  if decide (path = "/srv/assets/a.png") then inl path
  else inr "open: no such file or directory".

Definition sampleSeek (f : string) (offset whence : Z) : (string * Z) + GoError :=
  if offset <? 0 then inr "seek: invalid argument" else inl (f, offset).

Definition sampleStore : AssetStore :=
  {| dir := "/srv/assets"; prefix := "http://files"; secret := "s3cret";
     public := false |}.

Definition sampleJoin (d n : string) : string := d +:+ "/" +:+ n.

Lemma GetRangedFileReader_range_witness :
  GetRangedFileReader sampleJoin id sampleOpen (fun _ => inl 1000) sampleSeek
    sampleStore "a.png" {| From := 1000; To := 1200 |}
  = inr (FileRangeNotAcceptedError {| From := 1000; To := 1200 |})
  /\ GetRangedFileReader sampleJoin id sampleOpen (fun _ => inl 1000) sampleSeek
       sampleStore "a.png" {| From := 200; To := 5000 |}
     = inl {| ReadCloser := "/srv/assets/a.png";
              AcceptedRange := {| From := 200; To := 999 |};
              TotalSize := 1000 |}.
Proof.
  split.
  - apply (proj1 (GetRangedFileReader_range sampleJoin id sampleOpen
                    (fun _ => inl 1000) sampleSeek sampleStore "a.png"
                    {| From := 1000; To := 1200 |} "/srv/assets/a.png" 1000
                    eq_refl eq_refl ltac:(lia))).
    simpl. lia.
  - apply (proj2 (GetRangedFileReader_range sampleJoin id sampleOpen
                    (fun _ => inl 1000) sampleSeek sampleStore "a.png"
                    {| From := 200; To := 5000 |} "/srv/assets/a.png" 1000
                    eq_refl eq_refl ltac:(lia))
             ltac:(simpl; lia) "/srv/assets/a.png" 200 eq_refl).
Defined.

Lemma GetRangedFileReader_result_witness :
  exists file offset,
    sampleOpen (id (sampleJoin (dir sampleStore) "a.png")) = inl file
    /\ (inl 1000 : Z + GoError) = inl 1000
    /\ sampleSeek file 200 0 = inl ("/srv/assets/a.png", offset)
    /\ 200 = 200
    /\ 200 < 1000
    /\ 999 = Z.min 5000 (wrap64 (1000 - 1))
    /\ (0 <= 1000 < 2 ^ 63 -> 999 <= 1000 - 1).
Proof.
  apply (GetRangedFileReader_result sampleJoin id sampleOpen
           (fun _ => inl 1000) sampleSeek sampleStore "a.png"
           {| From := 200; To := 5000 |}
           {| ReadCloser := "/srv/assets/a.png";
              AcceptedRange := {| From := 200; To := 999 |};
              TotalSize := 1000 |}).
  reflexivity.
Defined.

Lemma GetRangedFileReader_range_error_witness :
  {| From := 1000; To := 1200 |} = {| From := 1000; To := 1200 |}
  /\ exists file S,
      sampleOpen (id (sampleJoin (dir sampleStore) "a.png")) = inl file
      /\ (inl 1000 : Z + GoError) = inl S
      /\ S <= 1000.
Proof.
  apply (GetRangedFileReader_range_error sampleJoin id sampleOpen
           (fun _ => inl 1000) sampleSeek sampleStore "a.png"
           {| From := 1000; To := 1200 |} {| From := 1000; To := 1200 |}).
  reflexivity.
Defined.

(** A disk that takes every byte of a text. *)
Definition sampleCopy (f src : string) : Z * option GoError :=
  (Z.of_nat (String.length src), None).

Lemma PutFileReader_length_witness :
  PutFileReader sampleJoin id (fun _ _ => None) inl sampleCopy
    sampleStore "a.txt" "hello" 5 "text/plain" = None
  /\ PutFileReader sampleJoin id (fun _ _ => None) inl sampleCopy
       sampleStore "a.txt" "hello" 4 "text/plain"
     = Some "got written 5 bytes, expect 4".
Proof.
  destruct (PutFileReader_length (File:=string) sampleJoin id (fun _ _ => None)
              inl sampleCopy sampleStore "a.txt" "hello" 5 "text/plain")
    as [[_ Hok] _].
  destruct (PutFileReader_length (File:=string) sampleJoin id (fun _ _ => None)
              inl sampleCopy sampleStore "a.txt" "hello" 4 "text/plain")
    as [_ Hshort].
  split.
  - apply Hok. split; [reflexivity|]. eexists. split; reflexivity.
  - apply (Hshort "/srv/assets/a.txt" 5); [reflexivity..|discriminate].
Defined.

(** A toy MAC and the identity as codec. *)
Definition sampleMAC (key message : string) : string := key +:+ "|" +:+ message.

Lemma SignedURL_verifies_witness :
  exists signature,
    SignedURL sampleMAC id sampleStore "a.png" (1700000000 * 1000000000 + 7)
    = ("http://files" +:+ "/" +:+ "a.png" +:+ "?expiredAt="
       +:+ pretty (Unix (1700000000 * 1000000000 + 7) + 900)
       +:+ "&signature=" +:+ signature, None)
    /\ forall expiredAt,
        Unix expiredAt = Unix (1700000000 * 1000000000 + 7) + 900 ->
        ParseSignature sampleMAC Some sampleStore signature "a.png" expiredAt
        = (true, None).
Proof.
  apply (SignedURL_verifies sampleMAC id Some sampleStore "a.png"
           (1700000000 * 1000000000 + 7)); reflexivity.
Defined.

(** The name "file" with expiry 1700000000 and the name "file1" with
    expiry 700000000 are signed alike. *)
Lemma ParseSignature_concatenation_witness :
  ParseSignature sampleMAC Some sampleStore "s3cret|file1700000000"
    "file" (1700000000 * 1000000000)
  = ParseSignature sampleMAC Some sampleStore "s3cret|file1700000000"
      "file1" (700000000 * 1000000000).
Proof.
  apply (ParseSignature_concatenation sampleMAC Some sampleStore
           "s3cret|file1700000000" "file" (1700000000 * 1000000000)
           "file1" (700000000 * 1000000000)).
  vm_compute. reflexivity.
Defined.

End AssetFS.

(* ===================================================================== *)
(** ** logging: the logger registry *)
Module Logging.

Section Registry.

(** The settings of a [logrus.Logger] (output, formatter, level, hooks);
    [New] is the logger [logrus.New()] returns and [StandardLogger] the
    one of [logrus.StandardLogger()]. *)
Context {Settings : Type}.
Variable New : Settings.
Variable StandardLogger : Settings.

(** The package state. A [*logrus.Logger] is an index in [heap], the
    loggers allocated so far; [logrus.New()] allocates at the end, and is
    never nil. [loggers] and [configureLoggerHandler] are the package
    variables; the handler configures the logger it is given in place. *)
Record State : Type := mkState {
  loggers : gmap string nat;
  configureLoggerHandler : option (string -> Settings -> Settings);
  heap : list Settings
}.

(** [init()]: the standard logger is registered under the empty name. *)
Definition init : State :=
  {| loggers := {[ "" := 0%nat ]};
     configureLoggerHandler := None;
     heap := [StandardLogger] |}.

Definition SetConfigureLoggerHandler
    (handler : option (string -> Settings -> Settings)) (st : State) : State :=
  {| loggers := loggers st;
     configureLoggerHandler := handler;
     heap := heap st |}.

(** [Logger(name)], under the package lock. *)
Definition Logger (name : string) (st : State) : nat * State :=
  match loggers st !! name with
  | Some logger => (logger, st)
  | None =>
      let logger := length (heap st) in
      let settings :=
        match configureLoggerHandler st with
        | Some handler => handler name New
        | None => New
        end in
      (logger,
       {| loggers := <[name := logger]> (loggers st);
          configureLoggerHandler := configureLoggerHandler st;
          heap := heap st ++ [settings] |})
  end.

(** The calls a program makes on the package. *)
Inductive Op : Type :=
| CallLogger (name : string)
| CallSetConfigureLoggerHandler
    (handler : option (string -> Settings -> Settings)).

Definition step (st : State) (op : Op) : State :=
  match op with
  | CallLogger name => (Logger name st).2
  | CallSetConfigureLoggerHandler handler => SetConfigureLoggerHandler handler st
  end.

Definition run (ops : list Op) (st : State) : State := foldl step st ops.

(** The names [Logger] is called with in a sequence of calls. *)
Definition loggerNames (ops : list Op) : list string :=
  omap (fun op => match op with
                  | CallLogger name => Some name
                  | CallSetConfigureLoggerHandler _ => None
                  end) ops.

(** [Loggers()]: a new map, filled from the registry entry by entry. *)
Definition Loggers (st : State) : gmap string nat :=
  map_fold (fun loggerName logger ret => <[loggerName := logger]> ret)
    ∅ (loggers st).

(** A [*logrus.Entry]: its logger and its fields. [Logger.WithFields]
    makes an entry with the fields given; [Entry.WithFields] makes an
    entry with the fields of the entry and the fields given, which win on
    a key both have. *)
Record Entry : Type := mkEntry {
  entryLogger : nat;
  Data : gmap string string
}.

Definition WithFields (logger : nat) (fields : gmap string string) : Entry :=
  {| entryLogger := logger; Data := fields |}.

Definition EntryWithFields (e : Entry) (fields : gmap string string) : Entry :=
  {| entryLogger := entryLogger e; Data := fields ∪ Data e |}.

Definition LoggerEntryWithTag (name tag : string) (st : State) : Entry * State :=
  let '(logger, st) := Logger name st in
  let fields : gmap string string := ∅ in
  let fields := if decide (name = "") then fields else <["logger" := name]> fields in
  let fields := if decide (tag = "") then fields else <["tag" := tag]> fields in
  let fields := <["process" := "server"]> fields in
  (WithFields logger fields, st).

Definition LoggerEntry (name : string) (st : State) : Entry * State :=
  LoggerEntryWithTag name name st.

(** [CreateLogger(ctx, logger)]; [ctx] may be nil, and the two context
    values are read only when they are strings. *)
Definition CreateLogger (ctx : option Router.Context) (logger : string)
    (st : State) : Entry * State :=
  let requestTag :=
    match ctx with
    | Some c => match Router.RequestTag c with Some tag => tag | None => "" end
    | None => ""
    end in
  let fields : gmap string string :=
    match ctx with
    | Some c =>
        match Router.RequestID c with
        | Some requestID => <["request_id" := requestID]> ∅
        | None => ∅
        end
    | None => ∅
    end in
  let '(e, st) := LoggerEntryWithTag logger requestTag st in
  (EntryWithFields e fields, st).

(** A registered name stays registered, with the same logger. *)
Lemma Logger_keeps name name' logger (st : State) :
  loggers st !! name = Some logger ->
  loggers (Logger name' st).2 !! name = Some logger.
Proof.
  intros H. unfold Logger.
  destruct (loggers st !! name') eqn:E; [done|]. simpl.
  rewrite lookup_insert_ne; [done|]. intros ->. congruence.
Qed.

Lemma run_keeps name logger ops : forall st : State,
  loggers st !! name = Some logger ->
  loggers (run ops st) !! name = Some logger.
Proof.
  induction ops as [|op ops IH]; intros st H; [done|].
  apply IH. destruct op as [name'|handler]; [by apply Logger_keeps|done].
Qed.

Lemma Logger_registered name logger (st : State) :
  loggers st !! name = Some logger -> Logger name st = (logger, st).
Proof. intros H. unfold Logger. by rewrite H. Qed.

(** C10, as the code has it. A call of [Logger] with a name that is not
    registered allocates one logger, with the settings [logrus.New()]
    gives, configured by the handler when one is installed, registers it
    under the name and returns it. After a call of [Logger] with any name,
    whatever calls of [Logger] and [SetConfigureLoggerHandler] follow, a
    call with the same name returns the same logger and leaves the
    registry, the handler and the loggers as they are. *)
Theorem Logger_memoizes name (st : State) :
  (loggers st !! name = None ->
   Logger name st
   = (length (heap st),
      {| loggers := <[name := length (heap st)]> (loggers st);
         configureLoggerHandler := configureLoggerHandler st;
         heap := heap st
                 ++ [match configureLoggerHandler st with
                     | Some handler => handler name New
                     | None => New
                     end] |}))
  /\ (forall ops,
        Logger name (run ops (Logger name st).2)
        = ((Logger name st).1, run ops (Logger name st).2)).
Proof.
  split.
  - intros H. unfold Logger. by rewrite H.
  - intros ops. apply Logger_registered, run_keeps.
    unfold Logger. destruct (loggers st !! name) eqn:E; simpl; [done|].
    apply lookup_insert_eq.
Qed.

(** ** Further properties of the registry *)

Lemma Loggers_copy (st : State) : Loggers st = loggers st.
Proof.
  unfold Loggers.
  induction (loggers st) as [|k v m Hk Hfold IH] using map_first_key_ind.
  - by rewrite map_fold_empty.
  - rewrite map_fold_insert_first_key by done. by rewrite IH.
Qed.

Lemma dom_Logger name (st : State) :
  dom (loggers (Logger name st).2) = {[name]} ∪ dom (loggers st).
Proof.
  unfold Logger. destruct (loggers st !! name) eqn:E; simpl.
  - apply elem_of_dom_2 in E. symmetry.
    by apply subseteq_union_1_L, singleton_subseteq_l.
  - apply dom_insert_L.
Qed.

Lemma dom_run ops : forall st : State,
  dom (loggers (run ops st)) = dom (loggers st) ∪ list_to_set (loggerNames ops).
Proof.
  induction ops as [|op ops IH]; intros st; simpl.
  - by rewrite (right_id_L ∅ (∪)).
  - unfold run in *. simpl. rewrite IH.
    destruct op as [name|handler]; simpl.
    + rewrite dom_Logger, (comm_L (∪) {[name]}). by rewrite <- (assoc_L (∪)).
    + done.
Qed.

(** X7: the map [Loggers()] returns holds the empty name and the names
    [Logger] has been called with since [init], and no other name. *)
Theorem Loggers_names ops :
  dom (Loggers (run ops init)) = {[""]} ∪ list_to_set (loggerNames ops).
Proof. rewrite Loggers_copy, dom_run. unfold init. simpl. by rewrite dom_singleton_L. Qed.

(** The loggers allocated keep their place and their settings. *)
Lemma heap_Logger name (st : State) i x :
  heap st !! i = Some x -> heap (Logger name st).2 !! i = Some x.
Proof.
  intros H. unfold Logger. destruct (loggers st !! name); simpl; [done|].
  by apply lookup_app_l_Some.
Qed.

Lemma heap_run ops : forall (st : State) i x,
  heap st !! i = Some x -> heap (run ops st) !! i = Some x.
Proof.
  induction ops as [|op ops IH]; intros st i x H; [done|].
  apply IH. destruct op as [name|handler]; [by apply heap_Logger|done].
Qed.

(** X8: a logger is configured once. The logger a call of [Logger] creates
    has the settings of [logrus.New()], changed by the handler installed
    at that call when there is one; whatever calls follow, also calls
    that install another handler, these stay its settings. *)
Theorem Logger_configured_once name (st : State) ops :
  loggers st !! name = None ->
  heap (run ops (Logger name st).2) !! (Logger name st).1
  = Some match configureLoggerHandler st with
         | Some handler => handler name New
         | None => New
         end.
Proof.
  intros H. apply heap_run. unfold Logger. rewrite H. simpl.
  by rewrite lookup_app_r, Nat.sub_diag.
Qed.

(** X9: from [init] on, the empty name is registered with the standard
    logger, and no handler ever configures the standard logger. *)
Theorem standard_logger_kept ops :
  exists logger,
    loggers (run ops init) !! "" = Some logger
    /\ heap (run ops init) !! logger = Some StandardLogger.
Proof.
  exists 0%nat. split.
  - apply run_keeps. unfold init. simpl. apply lookup_singleton_eq.
  - by apply heap_run.
Qed.

(** The registered loggers are allocated, and no two names share one. *)
Definition wellFormed (st : State) : Prop :=
  (forall name logger,
      loggers st !! name = Some logger -> (logger < length (heap st))%nat)
  /\ (forall name1 name2 logger,
        loggers st !! name1 = Some logger ->
        loggers st !! name2 = Some logger -> name1 = name2).

Lemma wellFormed_init : wellFormed init.
Proof.
  unfold wellFormed, init. simpl. split.
  - intros name logger [_ <-]%lookup_singleton_Some. lia.
  - by intros name1 name2 logger [<- _]%lookup_singleton_Some
                                [<- _]%lookup_singleton_Some.
Qed.

Lemma wellFormed_Logger name (st : State) :
  wellFormed st -> wellFormed (Logger name st).2.
Proof.
  intros [Halloc Hinj]. unfold Logger.
  destruct (loggers st !! name) eqn:E; simpl; [done|].
  split; simpl.
  - intros name' logger. rewrite length_app. simpl.
    destruct (decide (name = name')) as [->|Hne].
    + rewrite lookup_insert_eq. intros [= <-]. lia.
    + rewrite lookup_insert_ne by done. intros H. apply Halloc in H. lia.
  - intros name1 name2 logger H1 H2.
    apply lookup_insert_Some in H1 as [[-> <-]|[Hn1 H1]];
      apply lookup_insert_Some in H2 as [[Heq Hl]|[Hn2 H2]].
    + done.
    + apply Halloc in H2. lia.
    + apply Halloc in H1. lia.
    + by apply (Hinj name1 name2 logger).
Qed.

Lemma wellFormed_run ops : forall st : State,
  wellFormed st -> wellFormed (run ops st).
Proof.
  induction ops as [|op ops IH]; intros st H; [done|].
  apply IH. destruct op as [name|handler]; [by apply wellFormed_Logger|done].
Qed.

(** X10: from [init] on, every registered name has a logger that exists,
    and two different names never get the same logger. *)
Theorem registry_well_formed ops :
  (forall name logger,
      loggers (run ops init) !! name = Some logger ->
      is_Some (heap (run ops init) !! logger))
  /\ (forall name1 name2 logger,
        loggers (run ops init) !! name1 = Some logger ->
        loggers (run ops init) !! name2 = Some logger -> name1 = name2).
Proof.
  destruct (wellFormed_run ops init wellFormed_init) as [Halloc Hinj].
  split; [|exact Hinj].
  intros name logger H. by apply lookup_lt_is_Some, (Halloc name).
Qed.

Lemma LoggerEntryWithTag_Logger name tag (st : State) :
  entryLogger (LoggerEntryWithTag name tag st).1 = (Logger name st).1
  /\ (LoggerEntryWithTag name tag st).2 = (Logger name st).2.
Proof. unfold LoggerEntryWithTag. by destruct (Logger name st). Qed.

Lemma CreateLogger_Logger ctx name (st : State) :
  entryLogger (CreateLogger ctx name st).1 = (Logger name st).1
  /\ (CreateLogger ctx name st).2 = (Logger name st).2.
Proof.
  unfold CreateLogger.
  pose proof (LoggerEntryWithTag_Logger name
                match ctx with
                | Some c => match Router.RequestTag c with
                            | Some tag => tag
                            | None => ""
                            end
                | None => ""
                end st) as [H1 H2].
  by destruct (LoggerEntryWithTag _ _ _).
Qed.

(** X11: [CreateLogger] touches the registry as [Logger] does and no more:
    the entries made for one name, in whatever contexts and after
    whatever other calls, are all on the logger of the first one, and
    only the first one can change the package state. *)
Theorem CreateLogger_same_logger ctx ctx' name (st : State) ops :
  entryLogger (CreateLogger ctx' name (run ops (CreateLogger ctx name st).2)).1
  = entryLogger (CreateLogger ctx name st).1
  /\ (CreateLogger ctx' name (run ops (CreateLogger ctx name st).2)).2
     = run ops (CreateLogger ctx name st).2.
Proof.
  destruct (CreateLogger_Logger ctx name st) as [-> ->].
  destruct (CreateLogger_Logger ctx' name (run ops (Logger name st).2))
    as [-> ->].
  assert (loggers (run ops (Logger name st).2) !! name = Some (Logger name st).1)
    as H.
  { apply run_keeps. unfold Logger.
    destruct (loggers st !! name) eqn:E; simpl; [done|]. apply lookup_insert_eq. }
  by rewrite (Logger_registered _ _ _ H).
Qed.

(** X12: the fields of the entry [CreateLogger] makes: [process] is
    [server]; [logger] is the name, [tag] the request tag of the context,
    each left out when empty; [request_id] is the request id of the
    context, left out when the context has none; there is no other
    field. *)
Theorem CreateLogger_fields ctx name (st : State) key :
  Data (CreateLogger ctx name st).1 !! key
  = if decide (key = "process") then Some "server"
    else if decide (key = "logger")
    then (if decide (name = "") then None else Some name)
    else if decide (key = "tag")
    then match ctx ≫= Router.RequestTag with
         | Some tag => if decide (tag = "") then None else Some tag
         | None => None
         end
    else if decide (key = "request_id") then ctx ≫= Router.RequestID
    else None.
Proof.
  unfold CreateLogger, LoggerEntryWithTag.
  destruct (Logger name st) as [logger st']. simpl.
  destruct ctx as [[tag rid]|]; simpl;
    [destruct tag as [tag|], rid as [rid|]; simpl|];
    repeat case_decide; subst; simplify_map_eq; try done;
    rewrite ?lookup_union, ?lookup_insert_ne, ?lookup_empty by done;
    simplify_map_eq; done.
Qed.

End Registry.

(** Sample settings: the names of the configurations applied. *)
Definition tagWith (name : string) (applied : list string) : list string :=
  applied ++ [name].

Lemma Logger_memoizes_witness :
  Logger [] "router" (SetConfigureLoggerHandler (Some tagWith) (init ["std"]))
  = (1%nat,
     {| loggers := <["router" := 1%nat]> {[ "" := 0%nat ]};
        configureLoggerHandler := Some tagWith;
        heap := [["std"]; ["router"]] |})
  /\ Logger [] "router"
       (run [] [CallLogger "db"; CallSetConfigureLoggerHandler None]
          (Logger [] "router"
             (SetConfigureLoggerHandler (Some tagWith) (init ["std"]))).2)
     = (1%nat,
        run [] [CallLogger "db"; CallSetConfigureLoggerHandler None]
          (Logger [] "router"
             (SetConfigureLoggerHandler (Some tagWith) (init ["std"]))).2).
Proof.
  split.
  - apply (proj1 (Logger_memoizes [] "router"
                    (SetConfigureLoggerHandler (Some tagWith) (init ["std"])))).
    reflexivity.
  - apply (proj2 (Logger_memoizes [] "router"
                    (SetConfigureLoggerHandler (Some tagWith) (init ["std"])))).
Defined.

(** C10 fails as stated at the empty name: [init] has registered the
    standard logger under it, so the first call of [Logger] with it
    allocates nothing and the installed handler configures nothing. *)
Lemma Logger_empty_name_creates_nothing :
  Logger [] "" (SetConfigureLoggerHandler (Some tagWith) (init ["std"]))
  = (0%nat, SetConfigureLoggerHandler (Some tagWith) (init ["std"]))
  /\ heap (Logger [] "" (SetConfigureLoggerHandler (Some tagWith) (init ["std"]))).2
     = [["std"]].
Proof. split; reflexivity. Qed.

(** The logger made for "router" under the handler [tagWith] keeps its
    settings when another handler is installed and another logger made. *)
Lemma Logger_configured_once_witness :
  heap (run [] [CallSetConfigureLoggerHandler None; CallLogger "db"]
          (Logger [] "router"
             (SetConfigureLoggerHandler (Some tagWith) (init ["std"]))).2)
  !! 1%nat
  = Some ["router"].
Proof.
  apply (Logger_configured_once [] "router"
           (SetConfigureLoggerHandler (Some tagWith) (init ["std"]))
           [CallSetConfigureLoggerHandler None; CallLogger "db"]).
  reflexivity.
Defined.

Lemma registry_well_formed_witness :
  is_Some (heap (run [] [CallLogger "router"; CallLogger "db"] (init ["std"]))
           !! 2%nat)
  /\ "db" = "db".
Proof.
  destruct (registry_well_formed [] ["std"] [CallLogger "router"; CallLogger "db"])
    as [Halloc Hinj].
  split.
  - apply (Halloc "db" 2%nat). reflexivity.
  - apply (Hinj "db" "db" 2%nat); reflexivity.
Defined.

End Logging.
